(** * Orbital-Trajectory-Simulator: the motion model, the integrator set-up
      and the entry point of [main.py].

    The motion model is embedded twice.  Over the real numbers, Python
    floats are read as the reals they denote: [+], [*], [/], [**],
    [np.sqrt], [np.cos], [np.sin] are the operations of [R], with no
    rounding.  That reading is the one of the differential system and of
    the arguments handed to the solver; it says nothing where the
    floating-point evaluation raises or produces an infinity or a NaN.
    Those places are shown by the second embedding of the motion model,
    over binary64 floats (module [f64]).  The ODE solver
    [scipy.integrate.solve_ivp] and the plotting library are outside the
    program; the solver is a parameter of the embedding and the plotting
    calls are recorded as events. *)

From Stdlib Require Import String Reals List Lra Lia Arith.
From Stdlib Require Floats.
From ExtLib Require Import Structures.Monad Structures.MonadState
  Structures.MonadExc Structures.MonadTrans.
From ExtLib Require Import Data.Monads.StateMonad Data.Monads.EitherMonad.
Import ListNotations.
Import MonadNotation.
Local Open Scope monad_scope.
Local Open Scope R_scope.

(* The sample count 10000 is a [nat] literal; the decimal constants of the
   program are rounded to binary64 as Python rounds them. *)
Set Warnings "-abstract-large-number,-inexact-float".

(** ** Physical constants (main.py, lines 6-8) *)

Definition G : R := 6.67430e-11.
Definition M_terre : R := 5.972e24.
Definition R_terre : R := 6371e3.

(** ** Exceptions raised by the code that is modelled *)

Inductive Exception : Type :=
| ValueError     (* unpacking a sequence of the wrong length *)
| IndexError     (* indexing a sequence out of range *)
| OverflowError. (* a power of a Python float that overflows *)

(** ** The numpy operations the program calls *)

Module np.

(** [np.radians]: degrees to radians, [x * (pi / 180)]. *)
Definition radians (x : R) : R := x * (PI / 180).

(** [np.arange(0, num)] as floats. *)
Definition arange (num : nat) : list R := map INR (seq 0 num).

(** [y[-1] = v] on a one-dimensional array (nothing to do when empty). *)
Definition set_last (y : list R) (v : R) : list R :=
  match y with
  | [] => []
  | _ :: _ => removelast y ++ [v]
  end.

(** [np.linspace(start, stop, num)] with its default [endpoint=True]:
    [div = num - 1], [step = delta / div], the samples are
    [arange(0, num) * step + start] (computed as [(i / div) * delta] when
    the step is zero), and the last one is overwritten with [stop]. *)
Definition linspace (start stop : R) (num : nat) : list R :=
  let div := (num - 1)%nat in
  let delta := stop - start in
  let y := arange num in
  let y :=
    if (0 <? div)%nat then
      let step := delta / INR div in
      if Req_dec_T step 0
      then map (fun v => v * delta) (map (fun v => v / INR div) y)
      else map (fun v => v * step) y
    else map (fun v => v * delta) y in
  let y := map (fun v => v + start) y in
  if (1 <? num)%nat then set_last y stop else y.

End np.

(** ** Motion model (main.py, lines 11-20) *)

(** The real reading.  [x, y_pos, vx, vy = y] raises [ValueError] unless
    [y] has exactly four entries.  The time [t] is not used.  The division
    of [R] is total, so this reading returns a real vector on every state
    of four entries; it is the one of the program only where the floats
    neither overflow nor divide by an [r ** 3] that is zero (see
    [f64.équations_mouvement] and [sans_débordement]). *)
Definition équations_mouvement (t : R) (y : list R) (G M : R)
  : Exception + list R :=
  match y with
  | [x; y_pos; vx; vy] =>
      let r := sqrt (x ^ 2 + y_pos ^ 2) in
      let ax := - G * M * x / r ^ 3 in
      let ay := - G * M * y_pos / r ^ 3 in
      inr [vx; vy; ax; ay]
  | _ => inl ValueError
  end.

(** ** Motion model on binary64 floats (main.py, lines 11-20) *)

Module f64.

Import PrimFloat.
Local Open Scope float_scope.

(** The constants, rounded to binary64 (main.py, lines 6-7). *)
Definition G : float := 6.67430e-11.
Definition M_terre : float := 5.972e24.

(** The state argument is a Python list of floats, or a numpy array of
    float64 as the solver passes it. *)
Inductive État : Type :=
| py_list (l : list float)
| ndarray (l : list float).

Definition composantes (y : État) : list float :=
  match y with
  | py_list l => l
  | ndarray l => l
  end.

(** A square that is infinite although its argument is not. *)
Definition déborde (x : float) : bool :=
  is_infinity (x * x) && negb (is_infinity x).

(** [x ** 2].  On a Python float the power raises [OverflowError] when its
    result overflows; on a numpy scalar it returns the infinity.  A power
    with a small whole exponent is taken as the repeated product: the
    library's [pow] may differ from it in the last bit, not in where it is
    zero, infinite or NaN. *)
Definition carré (y : État) (x : float) : Exception + float :=
  match y with
  | py_list _ => if déborde x then inl OverflowError else inr (x * x)
  | ndarray _ => inr (x * x)
  end.

(** [r] is a numpy scalar, the result of [np.sqrt]: [r ** 3], the products
    and the quotients by it return infinities and NaNs, they do not
    raise. *)
Definition équations_mouvement (t : float) (y : État) (G M : float)
  : Exception + list float :=
  match composantes y with
  | [x; y_pos; vx; vy] =>
      match carré y x with
      | inl e => inl e
      | inr x2 =>
          match carré y y_pos with
          | inl e => inl e
          | inr y2 =>
              let r := sqrt (x2 + y2) in
              let r3 := r * r * r in
              let ax := - G * M * x / r3 in
              let ay := - G * M * y_pos / r3 in
              inr [vx; vy; ax; ay]
          end
      end
  | _ => inl ValueError
  end.

End f64.

(** ** Where the real reading is the one of the program *)

(** A distance to the origin and a product [G·M] for which the binary64
    evaluation of the motion model stays finite: the squares are at most
    [1e200], [r ** 3] lies between [1e-300] and [1e300] and so is not
    zero, and the accelerations are at most [|G·M|/r² <= 1e300]. *)
Definition sans_débordement (x y G M : R) : Prop :=
  1e-100 <= sqrt (x ^ 2 + y ^ 2) <= 1e100 /\ Rabs (G * M) <= 1e100.

(** ** The solver interface *)

(** The arguments of one call of [solve_ivp], positional and keyword.  The
    solver itself is taken as a function from this record to its result:
    it is deterministic, and it returns rather than raises. *)
Record SolveIvpArgs : Type := mkSolveIvpArgs {
  fun_   : R -> list R -> R -> R -> Exception + list R;
  t_span : R * R;
  y0     : list R;
  args   : R * R;
  t_eval : list R;
  rtol   : R;
  atol   : R
}.

(** The fields of scipy's result object that the program reads. *)
Record OdeResult : Type := mkOdeResult {
  t       : list R;
  y       : list (list R);
  success : bool
}.

(** ** Trajectory integrator (main.py, lines 23-52) *)

(** The default of the keyword parameter [durée]. *)
Definition durée_par_défaut : R := 86400.

Section Integrateur.

(** The solver is a parameter, and so is the type of what it returns. *)
Context {Sol : Type}.
Variable solve_ivp : SolveIvpArgs -> Sol.

Definition simulation_orbite
  (masse altitude vitesse_initiale angle_deg durée : R) : Sol :=
  let angle_rad := np.radians angle_deg in
  let x0 := R_terre + altitude in
  let y0 := 0 in
  let vx0 := vitesse_initiale * cos angle_rad in
  let vy0 := vitesse_initiale * sin angle_rad in
  let y_init := [x0; y0; vx0; vy0] in
  let t_span := (0, durée) in
  let t_eval := np.linspace 0 durée 10000 in
  let sol :=
    solve_ivp (mkSolveIvpArgs équations_mouvement t_span y_init
                 (G, M_terre) t_eval 1e-8 1e-10) in
  sol.

End Integrateur.

(** The call the integrator makes: with the solver that hands its
    arguments back, the integrator returns the argument record itself. *)
Definition appel_solveur (masse altitude vitesse_initiale angle_deg durée : R)
  : SolveIvpArgs :=
  simulation_orbite (fun a => a) masse altitude vitesse_initiale angle_deg durée.

(** ** Output of the program: printed lines and plotting calls *)

Inductive Event : Type :=
| Stdout (s : string)
| plt_figure (figsize : R * R)
| plt_Circle (centre : R * R) (rayon : R) (color label : string)
| plt_add_artist
| plt_plot (x y : list R) (color label : string)
| plt_xlabel (s : string)
| plt_ylabel (s : string)
| plt_title (s : string)
| plt_legend
| plt_axis (s : string)
| plt_grid (b : bool)
| plt_show.

(** Commands run over the list of events produced so far and either
    return or raise; the events stay when an exception is raised. *)
Definition IO : Type -> Type := eitherT Exception (state (list Event)).

Definition emit (e : Event) : IO unit :=
  lift (modify (fun tr => tr ++ [e])) ;; ret tt.

Definition print (s : string) : IO unit := emit (Stdout s).

(** [l[i]] on a Python sequence. *)
Definition index {A : Type} (l : list A) (i : nat) : IO A :=
  match nth_error l i with
  | Some a => ret a
  | None => raise IndexError
  end.

Definition run {A : Type} (c : IO A) : (Exception + A) * list Event :=
  runState (unEitherT c) [].

Definition sortie {A : Type} (c : IO A) : list Event := snd (run c).

(** ** Visualizer (main.py, lines 55-79) *)

Definition visualiser_orbite (sol : OdeResult) : IO unit :=
  x <- index (y sol) 0 ;;
  y <- index (y sol) 1 ;;
  emit (plt_figure (8, 8)) ;;
  emit (plt_Circle (0, 0) R_terre "blue" "Terre") ;;
  emit plt_add_artist ;;
  emit (plt_plot x y "red" "Trajectoire du satellite") ;;
  emit (plt_xlabel "Position X (m)") ;;
  emit (plt_ylabel "Position Y (m)") ;;
  emit (plt_title "Simulation de Trajectoire Orbitale") ;;
  emit plt_legend ;;
  emit (plt_axis "equal") ;;
  emit (plt_grid true) ;;
  emit plt_show.

(** ** Entry point (main.py, lines 82-101) *)

Definition msg_titre : string := "=== Simulateur de Trajectoires Orbitales ===".
Definition msg_entrée_invalide : string :=
  "Entrée invalide. Veuillez entrer des valeurs numériques.".
Definition msg_en_cours : string := "Simulation en cours...".
Definition msg_échec : string := "La simulation a échoué.".
Definition msg_terminée : string :=
  "Simulation terminée. Affichage de la trajectoire.".

(** The body of the [try] block: four assignments of literals. *)
Definition paramètres_main : IO (R * R * R * R) :=
  masse <- ret 1000.0 ;;
  altitude <- ret 400000.0 ;;
  vitesse_initiale <- ret 7800 ;;
  angle_deg <- ret 0.0 ;;
  ret (masse, altitude, vitesse_initiale, angle_deg).

(** What follows the [try] statement, for given parameter values. *)
Definition suite_main (solve_ivp : SolveIvpArgs -> OdeResult)
  (p : R * R * R * R) : IO unit :=
  let '(masse, altitude, vitesse_initiale, angle_deg) := p in
  print msg_en_cours ;;
  let sol := simulation_orbite solve_ivp masse altitude vitesse_initiale
               angle_deg durée_par_défaut in
  if negb (success sol) then
    print msg_échec ;;
    ret tt
  else
    print msg_terminée ;;
    visualiser_orbite sol.

(** [except ValueError] handles that exception only; its handler prints
    and returns from [main] ([None] below), any other exception goes on. *)
Definition main (solve_ivp : SolveIvpArgs -> OdeResult) : IO unit :=
  print msg_titre ;;
  p <- catch (p <- paramètres_main ;; ret (Some p))
             (fun e => match e with
                       | ValueError => print msg_entrée_invalide ;; ret None
                       | _ => raise e
                       end) ;;
  match p with
  | None => ret tt
  | Some p => suite_main solve_ivp p
  end.

(** ** Exact solutions of the motion model *)

(** The trajectory [t |-> (x t, y t, vx t, vy t)] solves the differential
    system whose right-hand side is [équations_mouvement] with constants
    [G] and [M]: at every time, each component has the derivative the
    motion model returns for the state at that time. *)
Definition solution_exacte (G M : R) (x y vx vy : R -> R) : Prop :=
  forall t : R,
  exists dx dy dvx dvy : R,
    équations_mouvement t [x t; y t; vx t; vy t] G M = inr [dx; dy; dvx; dvy]
    /\ derivable_pt_lim x t dx
    /\ derivable_pt_lim y t dy
    /\ derivable_pt_lim vx t dvx
    /\ derivable_pt_lim vy t dvy.

(** ** Observations on the output *)

(** The error diagnostic of a failed integration. *)
Definition est_diagnostic (e : Event) : bool :=
  match e with
  | Stdout s => String.eqb s msg_échec
  | _ => false
  end.

(** The plotting calls, which only the visualizer makes. *)
Definition est_tracé (e : Event) : bool :=
  match e with
  | Stdout _ => false
  | _ => true
  end.

(** * Properties *)

(** ** The evaluation grid of [np.linspace] *)

Section Linspace.

Lemma arange_length (num : nat) : length (np.arange num) = num.
Proof. unfold np.arange. now rewrite length_map, length_seq. Qed.

Lemma arange_nth_error (num i : nat) :
  (i < num)%nat -> nth_error (np.arange num) i = Some (INR i).
Proof.
  intros Hi. unfold np.arange.
  rewrite nth_error_map, nth_error_seq.
  apply Nat.ltb_lt in Hi. now rewrite Hi.
Qed.

Lemma set_last_length (l : list R) (v : R) :
  length (np.set_last l v) = length l.
Proof.
  destruct l as [|a l]; [reflexivity|].
  unfold np.set_last. rewrite length_app, removelast_firstn_len, length_firstn.
  cbn [length]. lia.
Qed.

Lemma set_last_nth_error_lt (l : list R) (v : R) (i : nat) :
  (S i < length l)%nat -> nth_error (np.set_last l v) i = nth_error l i.
Proof.
  intros Hi. destruct l as [|a l]; [reflexivity|].
  unfold np.set_last.
  rewrite removelast_firstn_len.
  rewrite nth_error_app1 by (rewrite length_firstn; cbn [length] in *; lia).
  rewrite nth_error_firstn.
  replace (i <? _)%nat with true; [reflexivity|].
  symmetry. apply Nat.ltb_lt. cbn [length] in *. lia.
Qed.

Lemma set_last_nth_error_last (l : list R) (v : R) (i : nat) :
  length l = S i -> nth_error (np.set_last l v) i = Some v.
Proof.
  intros Hi. destruct l as [|a l]; [discriminate|].
  unfold np.set_last.
  rewrite removelast_firstn_len.
  rewrite nth_error_app2 by (rewrite length_firstn; cbn [length] in *; lia).
  rewrite length_firstn, Hi. cbn [Nat.pred].
  replace (i - Nat.min i (S i))%nat with 0%nat by lia. reflexivity.
Qed.

Variables start stop : R.

Lemma linspace_length (num : nat) :
  length (np.linspace start stop num) = num.
Proof.
  unfold np.linspace.
  destruct (1 <? num)%nat; [rewrite set_last_length|];
    rewrite length_map;
    (destruct (0 <? num - 1)%nat; [destruct (Req_dec_T _ 0)|]);
    rewrite ?length_map; apply arange_length.
Qed.

(** With at least two points, sample [i] is [start + i * (stop - start) / (num - 1)]. *)
Lemma linspace_nth_error (num i : nat) :
  (2 <= num)%nat -> (i < num)%nat ->
  nth_error (np.linspace start stop num) i =
    Some (start + INR i * ((stop - start) / INR (num - 1))).
Proof.
  intros Hnum Hi.
  assert (Hdiv : INR (num - 1) <> 0) by (apply not_0_INR; lia).
  unfold np.linspace.
  replace (1 <? num)%nat with true by (symmetry; apply Nat.ltb_lt; lia).
  replace (0 <? num - 1)%nat with true by (symmetry; apply Nat.ltb_lt; lia).
  set (ys := map (fun v => v + start) _).
  assert (Hlen : length ys = num).
  { subst ys. rewrite length_map.
    destruct (Req_dec_T _ 0); rewrite ?length_map; apply arange_length. }
  assert (Hys : nth_error ys i =
                Some (start + INR i * ((stop - start) / INR (num - 1)))).
  { unfold ys. rewrite nth_error_map.
    destruct (Req_dec_T _ 0) as [Hz | Hnz].
    - rewrite !nth_error_map, (arange_nth_error _ _ Hi). cbn [option_map].
      f_equal. field. exact Hdiv.
    - rewrite nth_error_map, (arange_nth_error _ _ Hi). cbn [option_map].
      f_equal. ring. }
  destruct (Nat.eq_dec (S i) num) as [Hlast | Hnot].
  - rewrite set_last_nth_error_last by congruence.
    f_equal. replace (num - 1)%nat with i in Hdiv |- * by lia.
    field. exact Hdiv.
  - rewrite set_last_nth_error_lt by lia. exact Hys.
Qed.

Lemma linspace_nth (num i : nat) :
  (2 <= num)%nat -> (i < num)%nat ->
  nth i (np.linspace start stop num) 0 =
    start + INR i * ((stop - start) / INR (num - 1)).
Proof.
  intros Hnum Hi. apply nth_error_nth. now apply linspace_nth_error.
Qed.

Lemma linspace_first (num : nat) :
  (2 <= num)%nat -> nth 0 (np.linspace start stop num) 0 = start.
Proof.
  intros Hnum. rewrite linspace_nth by lia. cbn [INR]. ring.
Qed.

Lemma linspace_last (num : nat) :
  (2 <= num)%nat -> nth (num - 1) (np.linspace start stop num) 0 = stop.
Proof.
  intros Hnum. rewrite linspace_nth by lia.
  field. apply not_0_INR. lia.
Qed.

Lemma linspace_spacing (num i : nat) :
  (2 <= num)%nat -> (S i < num)%nat ->
  nth (S i) (np.linspace start stop num) 0
  - nth i (np.linspace start stop num) 0
  = (stop - start) / INR (num - 1).
Proof.
  intros Hnum Hi. rewrite !linspace_nth by lia.
  rewrite S_INR. field. apply not_0_INR. lia.
Qed.

End Linspace.

(** With [start = stop] every sample is that value. *)
Lemma linspace_constant (a : R) (num : nat) :
  np.linspace a a num = repeat a num.
Proof.
  assert (Hrep : forall (f : R -> R) (l : list R),
             (forall v, f v = a) -> map f l = repeat a (length l)).
  { intros f l Hf. induction l as [|v l IH]; cbn; [reflexivity|].
    now rewrite Hf, IH. }
  assert (Hlast : forall n, np.set_last (repeat a n) a = repeat a n).
  { intros [|n]; [reflexivity|]. cbn [repeat np.set_last].
    rewrite repeat_cons, removelast_last. reflexivity. }
  unfold np.linspace.
  set (ys := map (fun v => v + a) _).
  assert (Hys : ys = repeat a num).
  { unfold ys. rewrite map_map.
    destruct (0 <? num - 1)%nat; [destruct (Req_dec_T _ 0)|];
      rewrite ?map_map;
      (rewrite Hrep; [now rewrite arange_length | intros v; unfold Rdiv; ring]). }
  rewrite Hys. destruct (1 <? num)%nat; [apply Hlast | reflexivity].
Qed.

(** Two lists of reals are equal when their entries are, one by one. *)
Ltac egal_listes :=
  repeat (apply (f_equal2 (@cons R)); [lra|]); reflexivity.

(** ** The motion model *)

(** The unpacking fails exactly on the sequences that do not have four
    entries. *)
Lemma équations_mouvement_ValueError (t : R) (y : list R) (G M : R) :
  équations_mouvement t y G M = inl ValueError <-> length y <> 4%nat.
Proof.
  destruct y as [|x [|y_pos [|vx [|vy [|]]]]]; cbn; split;
    solve [ intros _; lia | intros _; reflexivity | discriminate
          | intros H; exfalso; apply H; reflexivity ].
Qed.

(** The square of the distance to the origin. *)
Lemma rayon_carré (x y : R) :
  sqrt (x ^ 2 + y ^ 2) * sqrt (x ^ 2 + y ^ 2) = x ^ 2 + y ^ 2.
Proof. apply sqrt_sqrt. nra. Qed.



(** On [sans_débordement] the distance is not zero and the accelerations
    are within the range of binary64. *)
Lemma sans_débordement_rayon (x y G M : R) :
  sans_débordement x y G M -> 0 < sqrt (x ^ 2 + y ^ 2).
Proof. intros [[Hlo _] _]. lra. Qed.



Lemma rayon_3_4 : sqrt (3 ^ 2 + 4 ^ 2) = 5.
Proof.
  replace (3 ^ 2 + 4 ^ 2) with (5 ^ 2) by ring. apply sqrt_pow2. lra.
Qed.

Lemma sans_débordement_3_4 : sans_débordement 3 4 2 5.
Proof.
  unfold sans_débordement. rewrite rayon_3_4.
  rewrite Rabs_pos_eq by lra. lra.
Qed.


(** ** The integrator *)

(** Whatever the solver, the integrator returns what the solver returns on
    the argument record [appel_solveur]. *)
Lemma simulation_orbite_appel {Sol : Type} (solve_ivp : SolveIvpArgs -> Sol)
  (masse altitude vitesse_initiale angle_deg durée : R) :
  simulation_orbite solve_ivp masse altitude vitesse_initiale angle_deg durée
  = solve_ivp (appel_solveur masse altitude vitesse_initiale angle_deg durée).
Proof. reflexivity. Qed.

Lemma radians_degrés (a : R) : np.radians a = a * PI / 180.
Proof. unfold np.radians. field. Qed.

Lemma appel_solveur_y0 (masse altitude vitesse_initiale angle_deg durée : R) :
  y0 (appel_solveur masse altitude vitesse_initiale angle_deg durée) =
    [ R_terre + altitude; 0;
      vitesse_initiale * cos (np.radians angle_deg);
      vitesse_initiale * sin (np.radians angle_deg) ].
Proof. reflexivity. Qed.

(** C2. The initial condition passed to the solver is
    [x0 = R + altitude], [y0 = 0], [vx0 = speed·cos(angle)],
    [vy0 = speed·sin(angle)], where the angle given in degrees is turned
    into radians ([angle_deg·π/180]). *)
Theorem simulation_orbite_initial_condition :
  forall (masse altitude vitesse_initiale angle_deg durée : R),
    y0 (appel_solveur masse altitude vitesse_initiale angle_deg durée) =
      [ R_terre + altitude;
        0;
        vitesse_initiale * cos (angle_deg * PI / 180);
        vitesse_initiale * sin (angle_deg * PI / 180) ].
Proof.
  intros. rewrite appel_solveur_y0, radians_degrés. reflexivity.
Qed.

(** The conversion is the one of degrees: a right angle is [π/2], so a
    launch at 90 degrees has no [x] velocity. *)
Lemma simulation_orbite_angle_droit (masse altitude vitesse_initiale durée : R) :
  y0 (appel_solveur masse altitude vitesse_initiale 90 durée) =
    [R_terre + altitude; 0; 0; vitesse_initiale].
Proof.
  rewrite appel_solveur_y0, radians_degrés.
  replace (90 * PI / 180) with (PI / 2) by field.
  rewrite cos_PI2, sin_PI2. egal_listes.
Qed.

Lemma dix_mille_points : 10000%nat = S 9999.
Proof. reflexivity. Qed.

Lemma au_moins_deux_points : (2 <= 10000)%nat.
Proof. apply Nat.leb_le. reflexivity. Qed.

Lemma INR_9999 : INR (10000 - 1) = 9999.
Proof.
  rewrite INR_IZR_INZ.
  replace (Z.of_nat (10000 - 1)) with 9999%Z by (vm_compute; reflexivity).
  reflexivity.
Qed.

(** C3. The integrator asks for the solution over [(0, duration)] at
    10000 times: the first is 0, the last is the duration, and two
    consecutive ones differ by [duration/9999]. *)
Theorem simulation_orbite_evaluation_times :
  forall (masse altitude vitesse_initiale angle_deg durée : R) (i : nat),
    (i < 9999)%nat ->
    let appel :=
      appel_solveur masse altitude vitesse_initiale angle_deg durée in
    t_span appel = (0, durée) /\
    length (t_eval appel) = 10000%nat /\
    nth 0 (t_eval appel) 0 = 0 /\
    nth 9999 (t_eval appel) 0 = durée /\
    nth (S i) (t_eval appel) 0 - nth i (t_eval appel) 0 = durée / 9999.
Proof.
  intros masse altitude vitesse_initiale angle_deg durée i Hi appel.
  pose proof au_moins_deux_points as H2.
  subst appel. cbn [appel_solveur simulation_orbite t_span t_eval].
  split; [reflexivity|].
  split; [apply linspace_length|].
  split; [now apply linspace_first|].
  split.
  - change 9999%nat with (10000 - 1)%nat. now apply linspace_last.
  - rewrite linspace_spacing; [|exact H2|rewrite dix_mille_points; lia].
    rewrite INR_9999. f_equal. ring.
Qed.

Lemma simulation_orbite_evaluation_times_witness :
  (0 < 9999)%nat /\
  let appel := appel_solveur 1000 400000 7800 0 86400 in
  t_span appel = (0, 86400) /\
  length (t_eval appel) = 10000%nat /\
  nth 0 (t_eval appel) 0 = 0 /\
  nth 9999 (t_eval appel) 0 = 86400 /\
  nth 1 (t_eval appel) 0 - nth 0 (t_eval appel) 0 = 86400 / 9999.
Proof.
  assert (H : (0 < 9999)%nat) by (apply Nat.ltb_lt; reflexivity).
  split; [exact H|].
  exact (simulation_orbite_evaluation_times 1000 400000 7800 0 86400 0%nat H).
Defined.

(** C4. Every call hands the solver the motion model, the relative
    tolerance 1e-8, the absolute tolerance 1e-10, and [G] and the mass of
    the Earth as the extra arguments the solver passes on to the motion
    model. *)
Theorem simulation_orbite_solver_configuration :
  forall (masse altitude vitesse_initiale angle_deg durée : R),
    let appel :=
      appel_solveur masse altitude vitesse_initiale angle_deg durée in
    fun_ appel = équations_mouvement /\
    rtol appel = 1 / 10 ^ 8 /\
    atol appel = 1 / 10 ^ 10 /\
    args appel = (G, M_terre) /\
    forall (t : R) (y : list R),
      fun_ appel t y (fst (args appel)) (snd (args appel)) =
        équations_mouvement t y 6.67430e-11 5.972e24.
Proof.
  intros masse altitude vitesse_initiale angle_deg durée appel.
  subst appel. cbn [appel_solveur simulation_orbite fun_ rtol atol args fst snd].
  repeat split; lra.
Qed.

(** C6. The result does not depend on the mass of the satellite: two calls
    that differ in the mass only give the same result, whatever the
    solver. *)
Theorem simulation_orbite_mass_independent :
  forall (Sol : Type) (solve_ivp : SolveIvpArgs -> Sol)
         (m1 m2 altitude vitesse_initiale angle_deg durée : R),
    simulation_orbite solve_ivp m1 altitude vitesse_initiale angle_deg durée =
    simulation_orbite solve_ivp m2 altitude vitesse_initiale angle_deg durée.
Proof. intros. reflexivity. Qed.

(** The request made for the example scenario of the entry point. *)
Lemma appel_solveur_exemple :
  let appel := appel_solveur 1000 400000 7800 0 86400 in
  y0 appel = [6771000; 0; 7800; 0] /\
  length (t_eval appel) = 10000%nat /\
  nth 0 (t_eval appel) 0 = 0.
Proof.
  cbv zeta. rewrite appel_solveur_y0, radians_degrés.
  replace (0 * PI / 180) with 0 by field.
  rewrite cos_0, sin_0. unfold R_terre.
  repeat split.
  - egal_listes.
  - apply linspace_length.
  - apply linspace_first, au_moins_deux_points.
Qed.

(** With a duration of 0 the integrator still asks the solver for 10000
    evaluation times, not for one.  What the solver returns on that
    request is not decided by the program. *)
Lemma duree_nulle_not_single_sample :
  length (t_eval (appel_solveur 1000 400000 7800 0 0)) <> 1%nat.
Proof.
  cbn [appel_solveur simulation_orbite t_eval].
  rewrite linspace_length, dix_mille_points. discriminate.
Qed.

(** With a duration of 0 the integrator asks for the solution over
    [(0, 0)] at 10000 evaluation times, all equal to 0, from the same
    initial condition as for any other duration. *)
Theorem simulation_orbite_duree_nulle :
  forall (masse altitude vitesse_initiale angle_deg : R),
    let appel := appel_solveur masse altitude vitesse_initiale angle_deg 0 in
    t_span appel = (0, 0) /\
    t_eval appel = repeat 0 10000 /\
    y0 appel =
      [ R_terre + altitude;
        0;
        vitesse_initiale * cos (angle_deg * PI / 180);
        vitesse_initiale * sin (angle_deg * PI / 180) ].
Proof.
  intros masse altitude vitesse_initiale angle_deg appel. subst appel.
  split; [reflexivity|].
  split; [|rewrite appel_solveur_y0, radians_degrés; reflexivity].
  cbn [appel_solveur simulation_orbite t_eval]. apply linspace_constant.
Qed.

(** ** The entry point *)

(** The events of one run of the visualizer, when [sol.y] has the two rows
    it reads. *)
Lemma run_visualiser_orbite (sol : OdeResult) :
  run (visualiser_orbite sol) =
    match y sol with
    | x :: y :: _ =>
        (inr tt,
         [ plt_figure (8, 8); plt_Circle (0, 0) R_terre "blue" "Terre";
           plt_add_artist; plt_plot x y "red" "Trajectoire du satellite";
           plt_xlabel "Position X (m)"; plt_ylabel "Position Y (m)";
           plt_title "Simulation de Trajectoire Orbitale"; plt_legend;
           plt_axis "equal"; plt_grid true; plt_show ])
    | _ => (inl IndexError, [])
    end.
Proof.
  unfold visualiser_orbite.
  destruct (y sol) as [|x [|y' rows]]; reflexivity.
Qed.

Lemma run_main (solve_ivp : SolveIvpArgs -> OdeResult) :
  let sol := simulation_orbite solve_ivp 1000.0 400000.0 7800 0.0
               durée_par_défaut in
  run (main solve_ivp) =
    if success sol
    then run (print msg_titre ;; print msg_en_cours ;; print msg_terminée ;;
              visualiser_orbite sol)
    else (inr tt, [Stdout msg_titre; Stdout msg_en_cours; Stdout msg_échec]).
Proof.
  intros sol. unfold main, suite_main, paramètres_main. fold sol.
  destruct (success sol) eqn:Hs.
  - unfold run. cbn. fold sol. rewrite Hs. reflexivity.
  - unfold run. cbn. fold sol. rewrite Hs. reflexivity.
Qed.

(** The whole run when the integration succeeds. *)
Lemma run_main_succès (solve_ivp : SolveIvpArgs -> OdeResult) :
  let sol := simulation_orbite solve_ivp 1000.0 400000.0 7800 0.0
               durée_par_défaut in
  success sol = true ->
  run (main solve_ivp) =
    match y sol with
    | x :: y :: _ =>
        (inr tt,
         [ Stdout msg_titre; Stdout msg_en_cours; Stdout msg_terminée;
           plt_figure (8, 8); plt_Circle (0, 0) R_terre "blue" "Terre";
           plt_add_artist; plt_plot x y "red" "Trajectoire du satellite";
           plt_xlabel "Position X (m)"; plt_ylabel "Position Y (m)";
           plt_title "Simulation de Trajectoire Orbitale"; plt_legend;
           plt_axis "equal"; plt_grid true; plt_show ])
    | _ =>
        (inl IndexError,
         [Stdout msg_titre; Stdout msg_en_cours; Stdout msg_terminée])
    end.
Proof.
  intros sol Hs. pose proof (run_main solve_ivp) as H. cbv zeta in H.
  fold sol in H. rewrite Hs in H. rewrite H.
  unfold visualiser_orbite.
  destruct (y sol) as [|x [|y' rows]]; reflexivity.
Qed.

(** C9. The entry point reads the success flag of the result. When it is
    false the run prints the title, the progress line and one error
    diagnostic, and returns with no plotting call; when it is true the run
    prints the title and the two progress lines and then runs the
    visualizer on the result.  So the diagnostic is printed exactly when
    the flag is false, and a plotting call is made only when it is true. *)
Theorem main_success_flag :
  forall (solve_ivp : SolveIvpArgs -> OdeResult),
    let sol := simulation_orbite solve_ivp 1000.0 400000.0 7800 0.0
                 durée_par_défaut in
    run (main solve_ivp) =
      (if success sol
       then run (print msg_titre ;; print msg_en_cours ;;
                 print msg_terminée ;; visualiser_orbite sol)
       else (inr tt, [Stdout msg_titre; Stdout msg_en_cours; Stdout msg_échec]))
    /\ length (filter est_diagnostic (sortie (main solve_ivp))) =
         (if success sol then 0 else 1)%nat
    /\ existsb est_tracé (sortie (main solve_ivp)) =
         (if success sol
          then existsb est_tracé (sortie (visualiser_orbite sol))
          else false).
Proof.
  intros solve_ivp sol. split; [apply run_main|].
  unfold sortie. destruct (success sol) eqn:Hs.
  - rewrite (run_main_succès solve_ivp Hs). fold sol.
    rewrite run_visualiser_orbite.
    destruct (y sol) as [|x [|y' rows]]; split; reflexivity.
  - pose proof (run_main solve_ivp) as H. cbv zeta in H. fold sol in H.
    rewrite Hs in H. rewrite H. split; reflexivity.
Qed.

(** C10. The body of the [try] block returns the four literals and never
    raises, so the entry point is the title line followed by the rest of
    [main] at mass 1000, altitude 400000, speed 7800 and angle 0, and the
    invalid-input message is never printed. *)
Theorem main_invalid_input_unreachable :
  forall (solve_ivp : SolveIvpArgs -> OdeResult),
    (forall tr : list Event,
        runState (unEitherT paramètres_main) tr =
          (inr (1000, 400000, 7800, 0), tr))
    /\ run (main solve_ivp) =
         run (print msg_titre ;; suite_main solve_ivp (1000, 400000, 7800, 0))
    /\ ~ In (Stdout msg_entrée_invalide) (sortie (main solve_ivp)).
Proof.
  intros solve_ivp.
  assert (Hp : (1000.0, 400000.0, 7800, 0.0) = (1000, 400000, 7800, 0) :> R * R * R * R).
  { repeat (apply f_equal2; [|lra]). lra. }
  split; [|split].
  - intros tr. rewrite <- Hp. reflexivity.
  - rewrite <- Hp. reflexivity.
  - unfold sortie.
    set (sol := simulation_orbite solve_ivp 1000.0 400000.0 7800 0.0
                  durée_par_défaut).
    destruct (success sol) eqn:Hs.
    + rewrite (run_main_succès solve_ivp Hs). fold sol.
      destruct (y sol) as [|x [|y' rows]]; cbn;
        intros H; repeat (destruct H as [H|H]; [discriminate H|]); exact H.
    + pose proof (run_main solve_ivp) as H. cbv zeta in H. fold sol in H.
      rewrite Hs in H. rewrite H. cbn.
      intros H'; repeat (destruct H' as [H'|H']; [discriminate H'|]); exact H'.
Qed.

(** ** Angular momentum *)

(** A function of time whose derivative is zero everywhere keeps its
    initial value. *)
Lemma dérivée_nulle_constante (f : R -> R) :
  (forall t, derivable_pt_lim f t 0) -> forall t, f t = f 0.
Proof.
  intros H t.
  set (pr := fun u => exist (fun l => derivable_pt_abs f u l) 0 (H u)).
  apply (null_derivative_1 f pr). intros u. reflexivity.
Qed.

(** Along an exact solution, [x·vy - y·vx] has derivative zero. *)
Lemma moment_cinétique_dérivée (G M : R) (x y vx vy : R -> R) :
  solution_exacte G M x y vx vy ->
  forall t, derivable_pt_lim (fun u => x u * vy u - y u * vx u) t 0.
Proof.
  intros Hsol t.
  destruct (Hsol t) as (dx & dy & dvx & dvy & Heq & Hx & Hy & Hvx & Hvy).
  cbn [équations_mouvement] in Heq.
  injection Heq as Edx Edy Edvx Edvy.
  pose proof (derivable_pt_lim_minus _ _ _ _ _
                (derivable_pt_lim_mult _ _ _ _ _ Hx Hvy)
                (derivable_pt_lim_mult _ _ _ _ _ Hy Hvx)) as HL.
  replace (dx * vy t + x t * dvy - (dy * vx t + y t * dvx)) with 0 in HL.
  - exact HL.
  - subst dx dy dvx dvy. unfold Rdiv. ring.
Qed.

(** The unit circular orbit, for [G = M = 1]: position [(cos t, sin t)],
    velocity [(- sin t, cos t)]. *)
Lemma orbite_circulaire_rayon (t : R) : sqrt (cos t ^ 2 + sin t ^ 2) = 1.
Proof.
  rewrite <- !Rsqr_pow2, Rplus_comm, sin2_cos2. apply sqrt_1.
Qed.

Lemma orbite_circulaire_solution :
  solution_exacte 1 1 cos sin (fun t => - sin t) cos.
Proof.
  intros t. do 4 eexists. split; [reflexivity|].
  rewrite orbite_circulaire_rayon.
  split; [apply derivable_pt_lim_cos|].
  split; [apply derivable_pt_lim_sin|].
  split.
  - replace (- (1) * 1 * cos t / 1 ^ 3) with (- cos t) by field.
    apply (derivable_pt_lim_opp sin), derivable_pt_lim_sin.
  - replace (- (1) * 1 * sin t / 1 ^ 3) with (- sin t) by field.
    apply derivable_pt_lim_cos.
Qed.

(** X15. Over the reals, the angular momentum [L = x·vy - y·vx] is
    conserved along every exact solution of the motion model that stays
    away from the origin. *)
Theorem angular_momentum_exact_solutions :
  forall (G M : R) (x y vx vy : R -> R),
    (forall t, sqrt (x t ^ 2 + y t ^ 2) <> 0) ->
    solution_exacte G M x y vx vy ->
    forall t, x t * vy t - y t * vx t = x 0 * vy 0 - y 0 * vx 0.
Proof.
  intros G M x y vx vy _ Hsol t.
  apply (dérivée_nulle_constante (fun u => x u * vy u - y u * vx u)).
  apply (moment_cinétique_dérivée G M); exact Hsol.
Qed.

Lemma angular_momentum_exact_solutions_witness :
  (forall t, sqrt (cos t ^ 2 + sin t ^ 2) <> 0)
  /\ solution_exacte 1 1 cos sin (fun t => - sin t) cos
  /\ (forall t, cos t * cos t - sin t * - sin t
                = cos 0 * cos 0 - sin 0 * - sin 0).
Proof.
  assert (Hr : forall t, sqrt (cos t ^ 2 + sin t ^ 2) <> 0).
  { intros t. rewrite orbite_circulaire_rayon. lra. }
  split; [exact Hr|]. split; [exact orbite_circulaire_solution|].
  exact (angular_momentum_exact_solutions 1 1 cos sin
           (fun t => - sin t) cos Hr orbite_circulaire_solution).
Defined.

(** ** Two runs of the entry point *)

(** With a solver that reports a failure, the run prints three lines and
    plots nothing. *)
Example main_solveur_en_échec :
  run (main (fun _ => mkOdeResult [] [] false)) =
    (inr tt, [Stdout msg_titre; Stdout msg_en_cours; Stdout msg_échec]).
Proof. reflexivity. Qed.

(** With a solver that reports a success and returns two samples, the run
    goes on to the eleven plotting calls. *)
Example main_solveur_en_succès :
  run (main (fun a => mkOdeResult [0; 1] [[1; 0]; [0; 1]; [0; -1]; [1; 0]] true)) =
    (inr tt,
     [ Stdout msg_titre; Stdout msg_en_cours; Stdout msg_terminée;
       plt_figure (8, 8); plt_Circle (0, 0) R_terre "blue" "Terre";
       plt_add_artist;
       plt_plot [1; 0] [0; 1] "red" "Trajectoire du satellite";
       plt_xlabel "Position X (m)"; plt_ylabel "Position Y (m)";
       plt_title "Simulation de Trajectoire Orbitale"; plt_legend;
       plt_axis "equal"; plt_grid true; plt_show ]).
Proof. reflexivity. Qed.

(** * Further properties of the code *)

(** ** The motion model: attraction, symmetry *)

(** X2. For [0 <= G·M] and a state in the range [sans_débordement], the
    acceleration the motion model returns has magnitude [G·M/r²], is
    directed against the position (its scalar product with [(x, y)] is
    [-G·M/r]) and is parallel to it ([x·ay - y·ax = 0]). *)
Theorem motion_model_inverse_square :
  forall (t x y vx vy G M : R),
    0 <= G * M ->
    sans_débordement x y G M ->
    let r := sqrt (x ^ 2 + y ^ 2) in
    exists ax ay : R,
      équations_mouvement t [x; y; vx; vy] G M = inr [vx; vy; ax; ay]
      /\ sqrt (ax ^ 2 + ay ^ 2) = G * M / r ^ 2
      /\ x * ax + y * ay = - (G * M / r)
      /\ x * ay - y * ax = 0.
Proof.
  intros t x y vx vy G M HGM Hdom r.
  pose proof (rayon_carré x y) as Hrr. fold r in Hrr.
  pose proof (sans_débordement_rayon x y G M Hdom) as Hpos. fold r in Hpos.
  eexists. eexists. split; [reflexivity|]. fold r. split; [|split].
  - replace ((- G * M * x / r ^ 3) ^ 2 + (- G * M * y / r ^ 3) ^ 2)
      with ((G * M) ^ 2 * (x ^ 2 + y ^ 2) / r ^ 6) by (field; lra).
    rewrite <- Hrr.
    replace ((G * M) ^ 2 * (r * r) / r ^ 6) with ((G * M / r ^ 2) ^ 2)
      by (field; lra).
    apply sqrt_pow2. apply Rmult_le_pos; [exact HGM|].
    apply Rlt_le, Rinv_0_lt_compat, pow_lt, Hpos.
  - replace (x * (- G * M * x / r ^ 3) + y * (- G * M * y / r ^ 3))
      with (- (G * M * (x ^ 2 + y ^ 2) / r ^ 3)) by (field; lra).
    rewrite <- Hrr. field. lra.
  - unfold Rdiv. ring.
Qed.

Lemma motion_model_inverse_square_witness :
  0 <= 2 * 5
  /\ sans_débordement 3 4 2 5
  /\ exists ax ay : R,
       équations_mouvement 0 [3; 4; 1; 2] 2 5 = inr [1; 2; ax; ay]
       /\ sqrt (ax ^ 2 + ay ^ 2) = 2 * 5 / sqrt (3 ^ 2 + 4 ^ 2) ^ 2
       /\ 3 * ax + 4 * ay = - (2 * 5 / sqrt (3 ^ 2 + 4 ^ 2))
       /\ 3 * ay - 4 * ax = 0.
Proof.
  assert (H1 : 0 <= 2 * 5) by lra.
  split; [exact H1|]. split; [exact sans_débordement_3_4|].
  exact (motion_model_inverse_square 0 3 4 1 2 2 5 H1 sans_débordement_3_4).
Defined.

(** The distance to the origin does not change under a rotation. *)
Lemma rayon_rotation (θ x y : R) :
  sqrt ((cos θ * x - sin θ * y) ^ 2 + (sin θ * x + cos θ * y) ^ 2)
  = sqrt (x ^ 2 + y ^ 2).
Proof.
  f_equal.
  pose proof (sin2_cos2 θ) as H. rewrite !Rsqr_pow2 in H.
  replace ((cos θ * x - sin θ * y) ^ 2 + (sin θ * x + cos θ * y) ^ 2)
    with ((sin θ ^ 2 + cos θ ^ 2) * (x ^ 2 + y ^ 2)) by ring.
  rewrite H. ring.
Qed.

(** X3. On the range [sans_débordement], which the rotations about the
    origin preserve, the motion model commutes with them: on a state whose
    position and velocity are rotated by an angle, it returns the
    derivative of the original state with velocity and acceleration
    rotated by the same angle. *)
Theorem motion_model_rotation :
  forall (θ t x y vx vy G M : R),
    sans_débordement x y G M ->
    sans_débordement (cos θ * x - sin θ * y) (sin θ * x + cos θ * y) G M
    /\ exists ax ay : R,
         équations_mouvement t [x; y; vx; vy] G M = inr [vx; vy; ax; ay]
         /\ équations_mouvement t
              [ cos θ * x - sin θ * y; sin θ * x + cos θ * y;
                cos θ * vx - sin θ * vy; sin θ * vx + cos θ * vy ] G M
            = inr [ cos θ * vx - sin θ * vy; sin θ * vx + cos θ * vy;
                    cos θ * ax - sin θ * ay; sin θ * ax + cos θ * ay ].
Proof.
  intros θ t x y vx vy G M Hdom. split.
  - unfold sans_débordement. rewrite rayon_rotation. exact Hdom.
  - eexists. eexists. split; [reflexivity|].
    cbn [équations_mouvement]. rewrite rayon_rotation.
    apply f_equal.
    repeat (apply (f_equal2 (@cons R)); [unfold Rdiv; ring|]). reflexivity.
Qed.

Lemma motion_model_rotation_witness :
  sans_débordement 3 4 2 5
  /\ sans_débordement (cos 1 * 3 - sin 1 * 4) (sin 1 * 3 + cos 1 * 4) 2 5
  /\ exists ax ay : R,
       équations_mouvement 0 [3; 4; 1; 2] 2 5 = inr [1; 2; ax; ay]
       /\ équations_mouvement 0
            [ cos 1 * 3 - sin 1 * 4; sin 1 * 3 + cos 1 * 4;
              cos 1 * 1 - sin 1 * 2; sin 1 * 1 + cos 1 * 2 ] 2 5
          = inr [ cos 1 * 1 - sin 1 * 2; sin 1 * 1 + cos 1 * 2;
                  cos 1 * ax - sin 1 * ay; sin 1 * ax + cos 1 * ay ].
Proof.
  split; [exact sans_débordement_3_4|].
  exact (motion_model_rotation 1 0 3 4 1 2 2 5 sans_débordement_3_4).
Defined.

(** ** Energy along exact solutions *)

(** Two functions that agree everywhere have the same derivatives. *)
Lemma derivable_pt_lim_ext (f g : R -> R) (t l : R) :
  (forall u, f u = g u) -> derivable_pt_lim f t l -> derivable_pt_lim g t l.
Proof.
  intros Hfg Hf eps Heps. destruct (Hf eps Heps) as [delta Hd].
  exists delta. intros h Hh Hlt. rewrite <- !Hfg. now apply Hd.
Qed.

(** The value of the motion model on a state of four entries. *)
Lemma équations_mouvement_état (t x y vx vy G M : R) :
  équations_mouvement t [x; y; vx; vy] G M =
    inr [ vx; vy;
          - G * M * x / sqrt (x ^ 2 + y ^ 2) ^ 3;
          - G * M * y / sqrt (x ^ 2 + y ^ 2) ^ 3 ].
Proof. reflexivity. Qed.

(** Equal results have equal components. *)
Lemma composante (k : nat) {l l' : list R} :
  inr l = inr l' :> Exception + list R -> nth k l' 0 = nth k l 0.
Proof. intros H. injection H as ->. reflexivity. Qed.

(** Along an exact solution that stays away from the origin, the specific
    energy [(vx² + vy²)/2 - G·M/r] has derivative zero. *)
Lemma énergie_dérivée (G M : R) (x y vx vy : R -> R) :
  (forall t, sqrt (x t ^ 2 + y t ^ 2) <> 0) ->
  solution_exacte G M x y vx vy ->
  forall t,
    derivable_pt_lim
      (fun u => (vx u ^ 2 + vy u ^ 2) / 2
                - G * M / sqrt (x u ^ 2 + y u ^ 2)) t 0.
Proof.
  intros Hr Hsol t.
  destruct (Hsol t) as (dx & dy & dvx & dvy & Heq & Hx & Hy & Hvx & Hvy).
  rewrite équations_mouvement_état in Heq.
  pose proof (composante 0 Heq) as Edx.
  pose proof (composante 1 Heq) as Edy.
  pose proof (composante 2 Heq) as Edvx.
  pose proof (composante 3 Heq) as Edvy.
  cbn [nth] in Edx, Edy, Edvx, Edvy. clear Heq.
  set (r := sqrt (x t ^ 2 + y t ^ 2)) in *.
  assert (Hrt : r <> 0) by apply Hr.
  assert (Hpos : 0 < x t * x t + y t * y t).
  { destruct (Rle_lt_or_eq_dec 0 (x t * x t + y t * y t)) as [H | H];
      [nra | exact H |].
    exfalso. apply Hrt. unfold r.
    replace (x t ^ 2 + y t ^ 2) with 0 by (rewrite H; ring).
    apply sqrt_0. }
  assert (Hs : sqrt (x t * x t + y t * y t) = r).
  { unfold r. f_equal. ring. }
  (* the square of the distance, the distance, the potential *)
  pose proof (derivable_pt_lim_plus _ _ _ _ _
                (derivable_pt_lim_mult _ _ _ _ _ Hx Hx)
                (derivable_pt_lim_mult _ _ _ _ _ Hy Hy)) as Hu.
  pose proof (derivable_pt_lim_comp (x * x + y * y)%F sqrt t _ _ Hu
                (derivable_pt_lim_sqrt _ Hpos)) as Hsq.
  assert (Hnz : comp sqrt (x * x + y * y)%F t <> 0).
  { unfold comp, plus_fct, mult_fct. rewrite Hs. exact Hrt. }
  pose proof (derivable_pt_lim_div _ _ _ _ _
                (derivable_pt_lim_const (G * M) t) Hsq Hnz) as Hpot.
  (* the kinetic part *)
  pose proof (derivable_pt_lim_scal _ (/ 2) _ _
                (derivable_pt_lim_plus _ _ _ _ _
                   (derivable_pt_lim_mult _ _ _ _ _ Hvx Hvx)
                   (derivable_pt_lim_mult _ _ _ _ _ Hvy Hvy))) as Hkin.
  pose proof (derivable_pt_lim_minus _ _ _ _ _ Hkin Hpot) as HE.
  eapply derivable_pt_lim_ext in HE.
  - match type of HE with derivable_pt_lim _ _ ?l => replace l with 0 in HE end.
    + exact HE.
    + unfold comp, plus_fct, mult_fct, fct_cte, Rsqr. rewrite Hs.
      rewrite Edx, Edy, Edvx, Edvy. fold r. field. exact Hrt.
  - intros u.
    unfold minus_fct, mult_real_fct, div_fct, comp, plus_fct, mult_fct, fct_cte.
    replace (x u * x u + y u * y u) with (x u ^ 2 + y u ^ 2) by ring.
    field.
    (* the distance occurs as a divisor on both sides *)
    apply Hr.
Qed.

(** X4. The specific energy [E = (vx² + vy²)/2 - G·M/r] is conserved along
    every exact solution of the motion model that stays away from the
    origin. *)
Theorem energy_conserved :
  forall (G M : R) (x y vx vy : R -> R),
    (forall t, sqrt (x t ^ 2 + y t ^ 2) <> 0) ->
    solution_exacte G M x y vx vy ->
    forall t,
      (vx t ^ 2 + vy t ^ 2) / 2 - G * M / sqrt (x t ^ 2 + y t ^ 2)
      = (vx 0 ^ 2 + vy 0 ^ 2) / 2 - G * M / sqrt (x 0 ^ 2 + y 0 ^ 2).
Proof.
  intros G M x y vx vy Hr Hsol t.
  apply (dérivée_nulle_constante
           (fun u => (vx u ^ 2 + vy u ^ 2) / 2
                     - G * M / sqrt (x u ^ 2 + y u ^ 2))).
  apply énergie_dérivée; assumption.
Qed.

Lemma energy_conserved_witness :
  (forall t, sqrt (cos t ^ 2 + sin t ^ 2) <> 0)
  /\ solution_exacte 1 1 cos sin (fun t => - sin t) cos
  /\ forall t,
       ((- sin t) ^ 2 + cos t ^ 2) / 2 - 1 * 1 / sqrt (cos t ^ 2 + sin t ^ 2)
       = ((- sin 0) ^ 2 + cos 0 ^ 2) / 2
         - 1 * 1 / sqrt (cos 0 ^ 2 + sin 0 ^ 2).
Proof.
  assert (Hr : forall t, sqrt (cos t ^ 2 + sin t ^ 2) <> 0).
  { intros t. rewrite orbite_circulaire_rayon. lra. }
  split; [exact Hr|]. split; [exact orbite_circulaire_solution|].
  exact (energy_conserved 1 1 cos sin (fun t => - sin t) cos Hr
           orbite_circulaire_solution).
Defined.

(** ** Circular orbits *)

Lemma dérivée_cos_lin (a ω t : R) :
  derivable_pt_lim (fun u => a * cos (ω * u)) t (- (a * ω) * sin (ω * t)).
Proof.
  pose proof (derivable_pt_lim_scal _ a _ _
                (derivable_pt_lim_comp (mult_real_fct ω id) cos t _ _
                   (derivable_pt_lim_scal id ω t 1 (derivable_pt_lim_id t))
                   (derivable_pt_lim_cos _))) as H.
  unfold mult_real_fct at 2 3, id in H.
  replace (a * (- sin (ω * t) * (ω * 1))) with (- (a * ω) * sin (ω * t)) in H
    by ring.
  apply (derivable_pt_lim_ext _ _ _ _ (fun u => eq_refl) H).
Qed.

Lemma dérivée_sin_lin (a ω t : R) :
  derivable_pt_lim (fun u => a * sin (ω * u)) t (a * ω * cos (ω * t)).
Proof.
  pose proof (derivable_pt_lim_scal _ a _ _
                (derivable_pt_lim_comp (mult_real_fct ω id) sin t _ _
                   (derivable_pt_lim_scal id ω t 1 (derivable_pt_lim_id t))
                   (derivable_pt_lim_sin _))) as H.
  unfold mult_real_fct at 2 3, id in H.
  replace (a * (cos (ω * t) * (ω * 1))) with (a * ω * cos (ω * t)) in H
    by ring.
  apply (derivable_pt_lim_ext _ _ _ _ (fun u => eq_refl) H).
Qed.

Lemma rayon_cercle (a θ : R) :
  0 <= a -> sqrt ((a * cos θ) ^ 2 + (a * sin θ) ^ 2) = a.
Proof.
  intros Ha. pose proof (sin2_cos2 θ) as H. rewrite !Rsqr_pow2 in H.
  replace ((a * cos θ) ^ 2 + (a * sin θ) ^ 2)
    with (a ^ 2 * (sin θ ^ 2 + cos θ ^ 2)) by ring.
  rewrite H, Rmult_1_r. now apply sqrt_pow2.
Qed.

(** The uniform circular motion of radius [a] and angular speed
    [sqrt (G·M / a³)] solves the system of the motion model. *)
Lemma orbite_circulaire_générale (G M a : R) :
  0 < a ->
  0 <= G * M ->
  let ω := sqrt (G * M / a ^ 3) in
  solution_exacte G M
    (fun t => a * cos (ω * t)) (fun t => a * sin (ω * t))
    (fun t => - (a * ω) * sin (ω * t)) (fun t => a * ω * cos (ω * t)).
Proof.
  intros Ha HGM ω.
  assert (Hω : ω * ω = G * M / a ^ 3).
  { apply sqrt_sqrt. apply Rmult_le_pos; [exact HGM|].
    apply Rlt_le, Rinv_0_lt_compat, pow_lt, Ha. }
  intros t. do 4 eexists. split; [apply équations_mouvement_état|].
  rewrite rayon_cercle by lra.
  split; [apply dérivée_cos_lin|].
  split; [apply dérivée_sin_lin|].
  split.
  - replace (- G * M * (a * cos (ω * t)) / a ^ 3)
      with (- (a * ω) * ω * cos (ω * t)).
    + apply (dérivée_sin_lin (- (a * ω)) ω t).
    + replace (- (a * ω) * ω * cos (ω * t))
        with (- a * (ω * ω) * cos (ω * t)) by ring.
      rewrite Hω. field. lra.
  - replace (- G * M * (a * sin (ω * t)) / a ^ 3)
      with (- (a * ω * ω) * sin (ω * t)).
    + apply (dérivée_cos_lin (a * ω) ω t).
    + replace (- (a * ω * ω) * sin (ω * t))
        with (- a * (ω * ω) * sin (ω * t)) by ring.
      rewrite Hω. field. lra.
Qed.

(** X5. For a radius [a > 0] and [0 <= G·M], the uniform circular motion of
    radius [a] and angular speed [ω = sqrt (G·M / a³)] is an exact solution
    of the motion model, and it stays at distance [a] from the origin. *)
Theorem circular_orbit_exact :
  forall (G M a : R),
    0 < a ->
    0 <= G * M ->
    let ω := sqrt (G * M / a ^ 3) in
    solution_exacte G M
      (fun t => a * cos (ω * t)) (fun t => a * sin (ω * t))
      (fun t => - (a * ω) * sin (ω * t)) (fun t => a * ω * cos (ω * t))
    /\ forall t, sqrt ((a * cos (ω * t)) ^ 2 + (a * sin (ω * t)) ^ 2) = a.
Proof.
  intros G M a Ha HGM ω. split.
  - apply orbite_circulaire_générale; assumption.
  - intros t. apply rayon_cercle. lra.
Qed.

Lemma circular_orbit_exact_witness :
  0 < 2
  /\ 0 <= 4 * 2
  /\ solution_exacte 4 2
       (fun t => 2 * cos (sqrt (4 * 2 / 2 ^ 3) * t))
       (fun t => 2 * sin (sqrt (4 * 2 / 2 ^ 3) * t))
       (fun t => - (2 * sqrt (4 * 2 / 2 ^ 3)) * sin (sqrt (4 * 2 / 2 ^ 3) * t))
       (fun t => 2 * sqrt (4 * 2 / 2 ^ 3) * cos (sqrt (4 * 2 / 2 ^ 3) * t))
  /\ forall t,
       sqrt ((2 * cos (sqrt (4 * 2 / 2 ^ 3) * t)) ^ 2
             + (2 * sin (sqrt (4 * 2 / 2 ^ 3) * t)) ^ 2) = 2.
Proof.
  assert (H1 : 0 < 2) by lra.
  assert (H2 : 0 <= 4 * 2) by lra.
  split; [exact H1|]. split; [exact H2|].
  exact (circular_orbit_exact 4 2 2 H1 H2).
Defined.

(** ** The initial state of the integrator *)

Lemma GM_terre_positif : 0 < G * M_terre.
Proof. unfold G, M_terre. lra. Qed.

Lemma R_terre_positif : 0 < R_terre.
Proof. unfold R_terre. lra. Qed.



(** X7. Whatever the angle, the initial state has the speed
    [|vitesse_initiale|], lies on the [x] axis at distance [|R + altitude|]
    from the origin, and its angular momentum [x·vy - y·vx] is
    [(R + altitude)·vitesse_initiale·sin(angle)]. *)
Theorem simulation_orbite_initial_speed :
  forall (masse altitude vitesse_initiale angle_deg durée : R),
    exists x0 vx0 vy0 : R,
      y0 (appel_solveur masse altitude vitesse_initiale angle_deg durée)
      = [x0; 0; vx0; vy0]
      /\ sqrt (vx0 ^ 2 + vy0 ^ 2) = Rabs vitesse_initiale
      /\ sqrt (x0 ^ 2 + 0 ^ 2) = Rabs (R_terre + altitude)
      /\ x0 * vy0 - 0 * vx0
         = (R_terre + altitude) * vitesse_initiale
           * sin (angle_deg * PI / 180).
Proof.
  intros masse altitude vitesse_initiale angle_deg durée.
  do 3 eexists. split; [apply appel_solveur_y0|].
  rewrite radians_degrés. set (θ := angle_deg * PI / 180).
  pose proof (sin2_cos2 θ) as H. rewrite !Rsqr_pow2 in H.
  split; [|split].
  - replace ((vitesse_initiale * cos θ) ^ 2 + (vitesse_initiale * sin θ) ^ 2)
      with (vitesse_initiale ^ 2 * (sin θ ^ 2 + cos θ ^ 2)) by ring.
    rewrite H, Rmult_1_r, <- Rsqr_pow2. apply sqrt_Rsqr_abs.
  - replace ((R_terre + altitude) ^ 2 + 0 ^ 2) with ((R_terre + altitude) ^ 2)
      by ring.
    rewrite <- Rsqr_pow2. apply sqrt_Rsqr_abs.
  - ring.
Qed.




(** ** Exact solutions from the initial state of the integrator *)

(** The speed of the circular motion of radius [a]. *)
Lemma vitesse_circulaire (GM a : R) :
  0 < a -> 0 <= GM -> a * sqrt (GM / a ^ 3) = sqrt (GM / a).
Proof.
  intros Ha HGM.
  rewrite <- (sqrt_pow2 a) at 1 by lra.
  rewrite <- sqrt_mult.
  - f_equal. field. lra.
  - apply pow2_ge_0.
  - apply Rmult_le_pos; [exact HGM|].
    apply Rlt_le, Rinv_0_lt_compat, pow_lt, Ha.
Qed.

(** The circular motion of radius [R + altitude] starts at the initial
    state the integrator builds for the circular speed and 90 degrees. *)
Lemma lancement_circulaire_état_initial (masse altitude durée : R) :
  0 < R_terre + altitude ->
  let a := R_terre + altitude in
  let ω := sqrt (G * M_terre / a ^ 3) in
  [ a * cos (ω * 0); a * sin (ω * 0);
    - (a * ω) * sin (ω * 0); a * ω * cos (ω * 0) ]
  = y0 (appel_solveur masse altitude (sqrt (G * M_terre / a)) 90 durée).
Proof.
  intros Ha a ω.
  rewrite appel_solveur_y0, radians_degrés.
  replace (90 * PI / 180) with (PI / 2) by field.
  rewrite cos_PI2, sin_PI2, Rmult_0_r, cos_0, sin_0.
  rewrite <- (vitesse_circulaire (G * M_terre) a Ha (Rlt_le _ _ GM_terre_positif)).
  fold ω. fold a.
  repeat (apply (f_equal2 (@cons R)); [ring|]). reflexivity.
Qed.

(** X9. Launched at 90 degrees with the circular speed
    [sqrt (G·M/(R + altitude))], the satellite has the uniform circular
    motion of radius [R + altitude] as an exact solution: that motion
    solves the system of the motion model with the constants of the
    program, starts at the initial state the integrator passes to the
    solver, and stays at distance [R + altitude] from the origin. *)
Theorem simulation_orbite_circular_launch :
  forall (masse altitude durée : R),
    0 < R_terre + altitude ->
    let a := R_terre + altitude in
    let ω := sqrt (G * M_terre / a ^ 3) in
    let x := fun t => a * cos (ω * t) in
    let y := fun t => a * sin (ω * t) in
    let vx := fun t => - (a * ω) * sin (ω * t) in
    let vy := fun t => a * ω * cos (ω * t) in
    solution_exacte G M_terre x y vx vy
    /\ [x 0; y 0; vx 0; vy 0]
       = y0 (appel_solveur masse altitude (sqrt (G * M_terre / a)) 90 durée)
    /\ forall t, sqrt (x t ^ 2 + y t ^ 2) = a.
Proof.
  intros masse altitude durée Ha a ω x y vx vy.
  split; [|split].
  - apply orbite_circulaire_générale;
      [exact Ha | apply Rlt_le, GM_terre_positif].
  - apply lancement_circulaire_état_initial. exact Ha.
  - intros t. apply rayon_cercle. unfold a. lra.
Qed.

Lemma simulation_orbite_circular_launch_witness :
  0 < R_terre + 400000
  /\ let a := R_terre + 400000 in
     let ω := sqrt (G * M_terre / a ^ 3) in
     let x := fun t => a * cos (ω * t) in
     let y := fun t => a * sin (ω * t) in
     let vx := fun t => - (a * ω) * sin (ω * t) in
     let vy := fun t => a * ω * cos (ω * t) in
     solution_exacte G M_terre x y vx vy
     /\ [x 0; y 0; vx 0; vy 0]
        = y0 (appel_solveur 1000 400000 (sqrt (G * M_terre / a)) 90 86400)
     /\ forall t, sqrt (x t ^ 2 + y t ^ 2) = a.
Proof.
  assert (H : 0 < R_terre + 400000) by (unfold R_terre; lra).
  split; [exact H|].
  exact (simulation_orbite_circular_launch 1000 400000 86400 H).
Defined.

(** X10. The launch parameters fix the two conserved quantities: along
    every exact solution of the motion model (with the constants of the
    program) that starts at the initial state of the integrator, with
    [0 < R + altitude], and stays away from the origin, the angular
    momentum is [(R + altitude)·v·sin(angle)] and the specific energy is
    [v²/2 - G·M/(R + altitude)] at all times. *)
Theorem simulation_orbite_conserved_quantities :
  forall (masse altitude vitesse_initiale angle_deg durée : R)
         (x y vx vy : R -> R),
    0 < R_terre + altitude ->
    (forall t, sqrt (x t ^ 2 + y t ^ 2) <> 0) ->
    solution_exacte G M_terre x y vx vy ->
    [x 0; y 0; vx 0; vy 0]
    = y0 (appel_solveur masse altitude vitesse_initiale angle_deg durée) ->
    forall t,
      x t * vy t - y t * vx t
      = (R_terre + altitude) * vitesse_initiale * sin (angle_deg * PI / 180)
      /\ (vx t ^ 2 + vy t ^ 2) / 2 - G * M_terre / sqrt (x t ^ 2 + y t ^ 2)
         = vitesse_initiale ^ 2 / 2 - G * M_terre / (R_terre + altitude).
Proof.
  intros masse altitude vitesse_initiale angle_deg durée x y vx vy
    Ha Hr Hsol Hinit t.
  rewrite appel_solveur_y0, radians_degrés in Hinit.
  set (θ := angle_deg * PI / 180) in *.
  pose proof (f_equal (fun l => nth 0 l 0) Hinit) as Ex.
  pose proof (f_equal (fun l => nth 1 l 0) Hinit) as Ey.
  pose proof (f_equal (fun l => nth 2 l 0) Hinit) as Evx.
  pose proof (f_equal (fun l => nth 3 l 0) Hinit) as Evy.
  cbn [nth] in Ex, Ey, Evx, Evy.
  split.
  - rewrite (dérivée_nulle_constante
               (fun u => x u * vy u - y u * vx u)
               (moment_cinétique_dérivée G M_terre x y vx vy Hsol) t).
    rewrite Ex, Ey, Evx, Evy. ring.
  - rewrite (dérivée_nulle_constante
               (fun u => (vx u ^ 2 + vy u ^ 2) / 2
                         - G * M_terre / sqrt (x u ^ 2 + y u ^ 2))
               (énergie_dérivée G M_terre x y vx vy Hr Hsol) t).
    rewrite Ex, Ey, Evx, Evy.
    replace ((R_terre + altitude) ^ 2 + 0 ^ 2) with ((R_terre + altitude) ^ 2)
      by ring.
    rewrite sqrt_pow2 by lra.
    pose proof (sin2_cos2 θ) as H. rewrite !Rsqr_pow2 in H.
    replace ((vitesse_initiale * cos θ) ^ 2 + (vitesse_initiale * sin θ) ^ 2)
      with (vitesse_initiale ^ 2 * (sin θ ^ 2 + cos θ ^ 2)) by ring.
    rewrite H. field. lra.
Qed.

Lemma simulation_orbite_conserved_quantities_witness :
  let a := R_terre + 400000 in
  let ω := sqrt (G * M_terre / a ^ 3) in
  let x := fun t => a * cos (ω * t) in
  let y := fun t => a * sin (ω * t) in
  let vx := fun t => - (a * ω) * sin (ω * t) in
  let vy := fun t => a * ω * cos (ω * t) in
  let v := sqrt (G * M_terre / a) in
  0 < R_terre + 400000
  /\ (forall t, sqrt (x t ^ 2 + y t ^ 2) <> 0)
  /\ solution_exacte G M_terre x y vx vy
  /\ [x 0; y 0; vx 0; vy 0] = y0 (appel_solveur 1000 400000 v 90 86400)
  /\ forall t,
       x t * vy t - y t * vx t
       = (R_terre + 400000) * v * sin (90 * PI / 180)
       /\ (vx t ^ 2 + vy t ^ 2) / 2 - G * M_terre / sqrt (x t ^ 2 + y t ^ 2)
          = v ^ 2 / 2 - G * M_terre / (R_terre + 400000).
Proof.
  intros a ω x y vx vy v.
  assert (Ha : 0 < R_terre + 400000) by (unfold R_terre; lra).
  assert (Hr : forall t, sqrt (x t ^ 2 + y t ^ 2) <> 0).
  { intros t. unfold x, y. rewrite rayon_cercle; unfold a; lra. }
  assert (Hsol : solution_exacte G M_terre x y vx vy).
  { apply orbite_circulaire_générale;
      [exact Ha | apply Rlt_le, GM_terre_positif]. }
  assert (Hinit : [x 0; y 0; vx 0; vy 0]
                  = y0 (appel_solveur 1000 400000 v 90 86400)).
  { apply lancement_circulaire_état_initial. exact Ha. }
  split; [exact Ha|]. split; [exact Hr|]. split; [exact Hsol|].
  split; [exact Hinit|].
  exact (simulation_orbite_conserved_quantities 1000 400000 v 90 86400
           x y vx vy Ha Hr Hsol Hinit).
Defined.

(** ** The visualizer and the entry point on malformed results *)

(** X11. The visualizer raises [IndexError], before any plotting call,
    exactly when [sol.y] has fewer than two rows; otherwise it returns after
    eleven plotting calls, the last of which shows the figure.  It never
    prints. *)
Theorem visualiser_orbite_rows :
  forall (sol : OdeResult),
    (fst (run (visualiser_orbite sol)) = inl IndexError
     <-> (length (y sol) < 2)%nat)
    /\ (fst (run (visualiser_orbite sol)) = inr tt
        <-> (2 <= length (y sol))%nat)
    /\ length (sortie (visualiser_orbite sol))
       = (if (2 <=? length (y sol))%nat then 11 else 0)%nat
    /\ last (sortie (visualiser_orbite sol)) plt_show = plt_show
    /\ forallb est_tracé (sortie (visualiser_orbite sol)) = true.
Proof.
  intros sol. unfold sortie. rewrite run_visualiser_orbite.
  destruct (y sol) as [|x [|y' rows]];
    cbn [fst snd length Nat.leb last forallb est_tracé andb];
    repeat split; try reflexivity; try discriminate; intros; lia.
Qed.

(** X12. The visualizer reads the first two rows of [sol.y] and nothing
    else: two results that agree on these rows give the same run, whatever
    their velocities, times and success flags. *)
Theorem visualiser_orbite_reads_positions :
  forall (sol sol' : OdeResult),
    nth_error (y sol) 0 = nth_error (y sol') 0 ->
    nth_error (y sol) 1 = nth_error (y sol') 1 ->
    run (visualiser_orbite sol) = run (visualiser_orbite sol').
Proof.
  intros sol sol' H0 H1. rewrite !run_visualiser_orbite.
  destruct (y sol) as [|x [|y1 rows]], (y sol') as [|x' [|y1' rows']];
    cbn in H0, H1; try discriminate; try reflexivity.
  injection H0 as ->. injection H1 as ->. reflexivity.
Qed.

Lemma visualiser_orbite_reads_positions_witness :
  nth_error (y (mkOdeResult [0; 1] [[1; 2]; [3; 4]; [5; 6]; [7; 8]] true)) 0
  = nth_error (y (mkOdeResult [] [[1; 2]; [3; 4]] false)) 0
  /\ nth_error (y (mkOdeResult [0; 1] [[1; 2]; [3; 4]; [5; 6]; [7; 8]] true)) 1
     = nth_error (y (mkOdeResult [] [[1; 2]; [3; 4]] false)) 1
  /\ run (visualiser_orbite
            (mkOdeResult [0; 1] [[1; 2]; [3; 4]; [5; 6]; [7; 8]] true))
     = run (visualiser_orbite (mkOdeResult [] [[1; 2]; [3; 4]] false)).
Proof.
  split; [reflexivity|]. split; [reflexivity|].
  exact (visualiser_orbite_reads_positions
           (mkOdeResult [0; 1] [[1; 2]; [3; 4]; [5; 6]; [7; 8]] true)
           (mkOdeResult [] [[1; 2]; [3; 4]] false) eq_refl eq_refl).
Defined.

(** X13. Whatever the solver returns, the entry point first prints the
    title and the progress line and never raises [ValueError].  Its run
    ends in an exception, the [IndexError] of the visualizer, exactly when
    the solver reports a success with fewer than two rows in [sol.y]; and
    the figure is shown exactly when it reports a success with at least two
    rows. *)
Theorem main_outcome :
  forall (solve_ivp : SolveIvpArgs -> OdeResult),
    let sol := simulation_orbite solve_ivp 1000.0 400000.0 7800 0.0
                 durée_par_défaut in
    firstn 2 (sortie (main solve_ivp)) = [Stdout msg_titre; Stdout msg_en_cours]
    /\ fst (run (main solve_ivp)) <> inl ValueError
    /\ (fst (run (main solve_ivp)) = inl IndexError
        <-> success sol = true /\ (length (y sol) < 2)%nat)
    /\ (last (sortie (main solve_ivp)) plt_legend = plt_show
        <-> success sol = true /\ (2 <= length (y sol))%nat).
Proof.
  intros solve_ivp sol. unfold sortie.
  destruct (success sol) eqn:Hs.
  - rewrite (run_main_succès solve_ivp Hs). fold sol.
    destruct (y sol) as [|x [|y' rows]]; cbn [fst snd length firstn last];
      (split; [reflexivity|]); (split; [discriminate|]);
      split; split;
        solve [ intros _; split; [reflexivity | lia]
              | intros _; reflexivity
              | discriminate
              | intros [_ H]; exfalso; lia ].
  - pose proof (run_main solve_ivp) as H. cbv zeta in H. fold sol in H.
    rewrite Hs in H. rewrite H. cbn [fst snd firstn last].
    split; [reflexivity|]. split; [discriminate|].
    split; split;
      solve [ discriminate | intros [H' _]; discriminate H' ].
Qed.

(** ** The angle is in degrees *)

(** X14. A full turn of 360 degrees added to the launch angle does not
    change the call made to the solver, hence not the result, whatever
    the solver. *)
Theorem simulation_orbite_full_turn :
  forall (Sol : Type) (solve_ivp : SolveIvpArgs -> Sol)
         (masse altitude vitesse_initiale angle_deg durée : R),
    simulation_orbite solve_ivp masse altitude vitesse_initiale
      (angle_deg + 360) durée
    = simulation_orbite solve_ivp masse altitude vitesse_initiale
        angle_deg durée.
Proof.
  intros Sol solve_ivp masse altitude vitesse_initiale angle_deg durée.
  unfold simulation_orbite.
  replace (np.radians (angle_deg + 360)) with (np.radians angle_deg + 2 * PI)
    by (unfold np.radians; field).
  rewrite cos_plus, sin_plus, cos_2PI, sin_2PI.
  replace (cos (np.radians angle_deg) * 1 - sin (np.radians angle_deg) * 0)
    with (cos (np.radians angle_deg)) by ring.
  replace (sin (np.radians angle_deg) * 1 + cos (np.radians angle_deg) * 0)
    with (sin (np.radians angle_deg)) by ring.
  reflexivity.
Qed.

(** * The motion model on binary64 floats *)

Module Flottants.

Import PrimFloat.
Local Open Scope float_scope.


(** A square that overflows: the exception on a Python list, an infinite
    distance and accelerations that are zero or NaN on a numpy array. *)
Example motion_model_overflow :
  f64.équations_mouvement 0 (f64.py_list [2e154; 0; 0; 0]) f64.G f64.M_terre
  = inl OverflowError
  /\ f64.équations_mouvement 0 (f64.ndarray [2e154; 0; 0; 0]) f64.G f64.M_terre
     = inr [0; 0; -0; -0].
Proof. split; vm_compute; reflexivity. Qed.

(** At the origin the code returns NaNs. *)
Example motion_model_origin :
  f64.équations_mouvement 0 (f64.ndarray [0; 0; 0; 0]) f64.G f64.M_terre
  = inr [0; 0; nan; nan].
Proof. vm_compute. reflexivity. Qed.

(** The initial state of the entry point: finite accelerations. *)
Example motion_model_initial_state :
  exists ax ay : float,
    f64.équations_mouvement 0 (f64.ndarray [6771000; 0; 7800; 0])
      f64.G f64.M_terre
    = inr [7800; 0; ax; ay]
    /\ is_finite ax = true /\ is_finite ay = true
    /\ (-8.7 <? ax) = true /\ (ax <? -8.6) = true.
Proof. do 2 eexists. repeat split; vm_compute; reflexivity. Qed.

(** X1. On floats the motion model has three outcomes.  It raises
    [ValueError] exactly when the state does not have four entries.  It
    raises [OverflowError] exactly when the state is a Python list of four
    floats and the square of its first or second entry overflows.
    Otherwise it returns a derivative of four entries (which may hold
    infinities or NaNs); on a numpy array of four entries it always
    returns. *)
Theorem motion_model_unpacking :
  forall (t : float) (y : f64.État) (G M : float),
    (f64.équations_mouvement t y G M = inl ValueError
     <-> length (f64.composantes y) <> 4%nat)
    /\ (f64.équations_mouvement t y G M = inl OverflowError
        <-> exists x y_pos vx vy : float,
              y = f64.py_list [x; y_pos; vx; vy]
              /\ (f64.déborde x || f64.déborde y_pos)%bool = true)
    /\ ((exists d : list float,
            f64.équations_mouvement t y G M = inr d /\ length d = 4%nat)
        <-> length (f64.composantes y) = 4%nat
            /\ f64.équations_mouvement t y G M <> inl OverflowError).
Proof.
  intros t y G M.
  destruct y as [l | l];
    destruct l as [|x [|y_pos [|vx [|vy [|z l]]]]];
    unfold f64.équations_mouvement, f64.carré; cbn [f64.composantes length];
    try (destruct (f64.déborde x) eqn:Hx);
    try (destruct (f64.déborde y_pos) eqn:Hy);
    cbn [orb];
    (split; [split | split; [split | split]]).
  all: try solve [ intros _; lia | discriminate
                 | intros H; exfalso; apply H; reflexivity
                 | intros _; reflexivity ].
  all: try solve [ intros _; exists x, y_pos, vx, vy; rewrite ?Hx, ?Hy;
                   split; reflexivity ].
  all: try solve [ intros (x' & y' & vx' & vy' & E & H);
                   first [ discriminate E
                         | injection E as <- <- <- <-;
                           rewrite ?Hx, ?Hy in H; discriminate H ] ].
  all: try solve [ intros (d & Hd & _);
                   first [ discriminate Hd
                         | split; [reflexivity | discriminate] ] ].
  all: try solve [ intros [Hl Hn];
                   first [ discriminate Hl
                         | exfalso; apply Hn; reflexivity
                         | eexists; split; reflexivity ] ].
Qed.

End Flottants.
